(** * LogStream: prefix stack and two depth-filtered output streams

    A shallow embedding of [base/logstream.h] (deal.II).  The header
    defines the class layout, the output template [operator<<] and the
    friend function [endl]; the remaining member functions are only
    declared there. *)

From Stdlib Require Import String Ascii List NArith Bool Lia.
Import ListNotations.

Set Implicit Arguments.

(** ** Streams and what is inserted into them *)

(** A [std::ostream] object is known to the logger by its address only:
    [std_out] and [file] are pointers, and nothing prevents both from
    designating the same stream. *)
Definition ostream := N.

(** [std::cerr], the stream the standard constructor selects. *)
Definition cerr : ostream := 2%N.

(** One insertion into a stream: rendered text, the manipulator
    [std::endl], or the user time supplied by the external time source
    (its value is not computed by this class). *)
Inductive chunk : Type :=
| Text (s : string)
| Endl
| Utime.

(** The member pointer an insertion is made through. *)
Inductive member : Type :=
| via_std_out
| via_file.

(** An executed statement [*p << c]: the pointer used, the stream it
    designated at that moment, and the inserted chunk. *)
Record emission : Type := Emit {
  through : member;
  onto : ostream;
  what : chunk
}.

Definition member_eqb (a b : member) : bool :=
  match a, b with
  | via_std_out, via_std_out => true
  | via_file, via_file => true
  | _, _ => false
  end.

(** Chunks inserted through one of the two member pointers. *)
Definition sent (m : member) (es : list emission) : list chunk :=
  map what (filter (fun e => member_eqb (through e) m) es).

(** Chunks that arrived at a given stream, whichever pointer was used. *)
Definition received (o : ostream) (es : list emission) : list chunk :=
  map what (filter (fun e => N.eqb (onto e) o) es).

(** ** Values that can be inserted: [template <typename T> operator<<] *)

Class Insertable (T : Type) : Type := render : T -> string.

#[export] Instance Insertable_string : Insertable string := fun s => s.
#[export] Instance Insertable_char : Insertable ascii :=
  fun c => String c EmptyString.
#[export] Instance Insertable_bool : Insertable bool :=
  fun b => if b then "1"%string else "0"%string.

(** ** The class *)

(** The data members, in declaration order.  [prefixes] lists the stack
    from its top; [file = None] is the null pointer.  The two depths are
    [unsigned int]s that are only stored and compared, never computed
    with, so no wrap-around arises. *)
Record LogStream : Type := mkLogStream {
  prefixes : list string;
  std_out : ostream;
  file : option ostream;
  was_endl : bool;
  std_depth : N;
  file_depth : N;
  print_utime : bool
}.

(** [prefixes.size()] *)
Definition size (s : LogStream) : N := N.of_nat (length (prefixes s)).

Definition set_prefixes (p : list string) (s : LogStream) : LogStream :=
  mkLogStream p (std_out s) (file s) (was_endl s)
              (std_depth s) (file_depth s) (print_utime s).

Definition set_file (f : option ostream) (s : LogStream) : LogStream :=
  mkLogStream (prefixes s) (std_out s) f (was_endl s)
              (std_depth s) (file_depth s) (print_utime s).

Definition set_was_endl (b : bool) (s : LogStream) : LogStream :=
  mkLogStream (prefixes s) (std_out s) (file s) b
              (std_depth s) (file_depth s) (print_utime s).

Definition set_std_depth (n : N) (s : LogStream) : LogStream :=
  mkLogStream (prefixes s) (std_out s) (file s) (was_endl s)
              n (file_depth s) (print_utime s).

Definition set_file_depth (n : N) (s : LogStream) : LogStream :=
  mkLogStream (prefixes s) (std_out s) (file s) (was_endl s)
              (std_depth s) n (print_utime s).

Definition set_print_utime (b : bool) (s : LogStream) : LogStream :=
  mkLogStream (prefixes s) (std_out s) (file s) (was_endl s)
              (std_depth s) (file_depth s) b.

(** ** Member functions as actions on the object

    A call reads and updates the object, performs insertions into the
    streams, and either returns or throws.  When it throws, the object
    and the insertions made so far are kept. *)

Inductive exception : Type :=
| ExcNoFileStreamGiven
| ExcScopeUnderflow.

Inductive result (A : Type) : Type :=
| Returned (a : A)
| Thrown (e : exception).
Arguments Thrown {A} e.

Definition action (A : Type) : Type :=
  LogStream -> result A * LogStream * list emission.

Definition ret {A} (a : A) : action A :=
  fun s => (Returned a, s, []).

Definition bind {A B} (m : action A) (k : A -> action B) : action B :=
  fun s =>
    match m s with
    | (Returned a, s1, o1) =>
        match k a s1 with
        | (r, s2, o2) => (r, s2, o1 ++ o2)
        end
    | (Thrown e, s1, o1) => (Thrown e, s1, o1)
    end.

Declare Scope action_scope.
Delimit Scope action_scope with action.
Notation "x <- m ;; k" := (bind m (fun x => k))
  (at level 61, m at next level, right associativity) : action_scope.
Notation "m ;; k" := (bind m (fun _ => k))
  (at level 61, right associativity) : action_scope.
Open Scope action_scope.

Definition gets {A} (f : LogStream -> A) : action A :=
  fun s => (Returned (f s), s, []).

Definition modify (f : LogStream -> LogStream) : action unit :=
  fun s => (Returned tt, f s, []).

Definition emit (e : emission) : action unit :=
  fun s => (Returned tt, s, [e]).

Definition throw {A} (e : exception) : action A :=
  fun s => (Thrown e, s, []).

Definition when (b : bool) (m : action unit) : action unit :=
  if b then m else ret tt.

(** The three components of a call's effect. *)
Definition outcome {A} (r : result A * LogStream * list emission) : result A :=
  fst (fst r).
Definition object {A} (r : result A * LogStream * list emission) : LogStream :=
  snd (fst r).
Definition emitted {A} (r : result A * LogStream * list emission)
  : list emission := snd r.

(** [*std_out << c] *)
Definition insert_std_out (c : chunk) : action unit :=
  o <- gets std_out ;; emit (Emit via_std_out o c).

(** [if (file && (prefixes.size() <= file_depth)) *file << c] *)
Definition insert_file_if_shallow (c : chunk) : action unit :=
  f <- gets file ;;
  match f with
  | None => ret tt
  | Some o =>
      n <- gets size ;;
      d <- gets file_depth ;;
      when (n <=? d)%N (emit (Emit via_file o c))
  end.

(** [if (prefixes.size() <= std_depth) *std_out << c] *)
Definition insert_std_out_if_shallow (c : chunk) : action unit :=
  n <- gets size ;;
  d <- gets std_depth ;;
  when (n <=? d)%N (insert_std_out c).

(** *** Members defined outside the header *)

(** Modelled from the spec: the body of [LogStream::push] is not part of
    the header.  "Appends [label] to [prefixStack] ... side effect only
    on the stack, not on sinks." *)
Definition push (text : string) : action unit :=
  modify (fun s => set_prefixes (text :: prefixes s) s).

(** Modelled from the spec: the body of [LogStream::pop] is not part of
    the header, whose comment reads "Remove the last prefix".  The arm for
    the empty stack follows the error the spec mandates ("if empty, signal
    a ScopeUnderflow error"); the header declares no such exception and
    nothing in it tells what the original does there. *)
Definition pop : action unit :=
  p <- gets prefixes ;;
  match p with
  | [] => throw ExcScopeUnderflow
  | _ :: rest => modify (set_prefixes rest)
  end.

(** Modelled from the spec: the body of [LogStream::attach] is not part of
    the header.  "Installs [sink] as secondary ... attaching while already
    attached replaces the previous reference". *)
Definition attach (o : ostream) : action unit :=
  modify (set_file (Some o)).

(** Modelled from the spec: the body of [LogStream::detach] is not part of
    the header.  "Clears the secondary reference". *)
Definition detach : action unit :=
  modify (set_file None).

(** Modelled from the spec: the body of [LogStream::get_console] is not
    part of the header; its comment reads "Gives the default stream". *)
Definition get_console : action ostream :=
  gets std_out.

(** Modelled from the spec: the body of [LogStream::get_file_stream] is not
    part of the header, which declares [ExcNoFileStreamGiven] next to it.
    "NoSecondarySink: any operation that requires a secondary sink (e.g.
    explicitly requesting the secondary's current target) when none is
    attached; surfaced as a checked error". *)
Definition get_file_stream : action ostream :=
  f <- gets file ;;
  match f with
  | None => throw ExcNoFileStreamGiven
  | Some o => ret o
  end.

(** Modelled from the spec: the body of [LogStream::depth_console] is not
    part of the header.  "Set primaryDepthLimit to [n]". *)
Definition depth_console (n : N) : action unit :=
  modify (set_std_depth n).

(** Modelled from the spec: the body of [LogStream::depth_file] is not part
    of the header.  "Set secondaryDepthLimit to [n]". *)
Definition depth_file (n : N) : action unit :=
  modify (set_file_depth n).

(** Modelled from the spec: the body of [LogStream::log_execution_time] is
    not part of the header.  "Toggles whether headers include elapsed
    execution time". *)
Definition log_execution_time (flag : bool) : action unit :=
  modify (set_print_utime flag).

(** Entries joined by a separator (no separator after the last one). *)
Definition joined (sep : string) (labels : list string) : string :=
  String.concat sep labels.

(** Modelled from the spec: the text [LogStream::print_line_head] prints
    for the prefix stack; the body is not part of the header.  "Entries
    joined by [:] then one more [:] appended", in push order.  (The
    header's comment on [push] speaks of a double colon after the last
    prefix; no theorem below depends on the characters of this text,
    which only show in the sample runs.) *)
Definition head_text (s : LogStream) : string :=
  (joined ":" (rev (prefixes s)) ++ ":")%string.

(** Modelled from the spec: what [LogStream::print_line_head] inserts.
    "If timeAnnotationEnabled, produce a leading token with elapsed time;
    then append the colon-joined scope labels". *)
Definition line_head (s : LogStream) : list chunk :=
  (if print_utime s then [Utime] else []) ++ [Text (head_text s)].

(** Run an action on every element of a list, first to last. *)
Fixpoint for_each {A} (f : A -> action unit) (l : list A) : action unit :=
  match l with
  | [] => ret tt
  | a :: rest => f a ;; for_each f rest
  end.

(** Modelled from the spec: the body of [LogStream::print_line_head] is
    not part of the header.  "Render the header and emit it through
    whichever sinks are currently eligible (same depth check as step 2,
    applied to the header text)"; "this function has no side effects". *)
Definition print_line_head : action unit :=
  h <- gets line_head ;;
  for_each insert_std_out_if_shallow h ;;
  for_each insert_file_if_shallow h.

(** *** Members defined in the header *)

(** [template <class T> LogStream & LogStream::operator<< (const T& t)].
    The returned [*this] only serves chaining, which is sequencing here. *)
Definition operator_shl {T} `{Insertable T} (t : T) : action unit :=
  pending <- gets was_endl ;;
  when pending (print_line_head ;; modify (set_was_endl false)) ;;
  insert_std_out_if_shallow (Text (render t)) ;;
  insert_file_if_shallow (Text (render t)).

(** [inline void endl (LogStream& s)] *)
Definition endl : action unit :=
  insert_std_out_if_shallow Endl ;;
  insert_file_if_shallow Endl ;;
  modify (set_was_endl true).

(** ** Vocabulary of the statements *)

(** The guard in front of each insertion. *)
Definition passes (m : member) (s : LogStream) : bool :=
  match m with
  | via_std_out => (size s <=? std_depth s)%N
  | via_file =>
      match file s with
      | None => false
      | Some _ => (size s <=? file_depth s)%N
      end
  end.

(** The stream a member pointer designates, if any. *)
Definition target (m : member) (s : LogStream) : option ostream :=
  match m with
  | via_std_out => Some (std_out s)
  | via_file => file s
  end.

(** What the guarded statement [if (...) *p << c1 << c2 ...] inserts
    through member pointer [m] in state [s]. *)
Definition insertions (m : member) (s : LogStream) (cs : list chunk)
  : list emission :=
  match target m s with
  | Some o => if passes m s then map (Emit m o) cs else []
  | None => []
  end.

(** The calls a user of the class can make; [Shl] is [operator<<] on a
    string and [Endl_] the manipulator [endl]. *)
Inductive call : Type :=
| Push (text : string)
| Pop
| Attach (o : ostream)
| Detach
| GetConsole
| GetFileStream
| DepthConsole (n : N)
| DepthFile (n : N)
| LogExecutionTime (flag : bool)
| Shl (t : string)
| Endl_.

Definition perform (c : call) : action unit :=
  match c with
  | Push text => push text
  | Pop => pop
  | Attach o => attach o
  | Detach => detach
  | GetConsole => _ <- get_console ;; ret tt
  | GetFileStream => _ <- get_file_stream ;; ret tt
  | DepthConsole n => depth_console n
  | DepthFile n => depth_file n
  | LogExecutionTime flag => log_execution_time flag
  | Shl t => operator_shl t
  | Endl_ => endl
  end.

Fixpoint perform_all (cs : list call) : action unit :=
  match cs with
  | [] => ret tt
  | c :: rest => perform c ;; perform_all rest
  end.

(** The calls that only produce output. *)
Definition is_output (c : call) : bool :=
  match c with
  | Shl _ | Endl_ => true
  | _ => false
  end.

(** ** Sample objects *)

(** Two prefixes, a stream attached, console depth 1 and file depth 99. *)
Definition two_deep : LogStream :=
  mkLogStream ["iter"; "solve"]%string cerr (Some 7%N) true 1%N 99%N false.

(** No prefix and console depth 0, in the middle of a line. *)
Definition console_off : LogStream :=
  mkLogStream [] cerr None false 0%N 0%N false.

(** ** The header's output functions with the line head left open *)

(** [LogStream::operator<<] as the header defines it, with the call
    [print_line_head()], whose body the header does not contain, taken as
    a parameter. *)
Definition operator_shl_with (print_head : action unit)
    {T} `{Insertable T} (t : T) : action unit :=
  pending <- gets was_endl ;;
  when pending (print_head ;; modify (set_was_endl false)) ;;
  insert_std_out_if_shallow (Text (render t)) ;;
  insert_file_if_shallow (Text (render t)).

(** What the header says of [print_line_head] ("Print head of line"): it
    prints, that is, it returns and leaves the data members alone. *)
Definition only_prints (a : action unit) : Prop :=
  forall s, outcome (a s) = Returned tt /\ object (a s) = s.

(** [deallog << t1 << t2 << ...] *)
Definition write_all_with (print_head : action unit)
    {T} `{Insertable T} (ts : list T) : action unit :=
  for_each (operator_shl_with print_head) ts.

(** [deallog << t1 << t2 << ... << endl] *)
Definition line_with (print_head : action unit)
    {T} `{Insertable T} (ts : list T) : action unit :=
  write_all_with print_head ts ;; endl.

(** One output call: a string written with [operator<<], or [endl]. *)
Inductive output : Type :=
| Value (t : string)
| Newline.

Definition put_with (print_head : action unit) (o : output) : action unit :=
  match o with
  | Value t => operator_shl_with print_head t
  | Newline => endl
  end.

Definition is_newline (o : output) : bool :=
  match o with
  | Newline => true
  | Value _ => false
  end.

(** Whether the last of the calls [outs] is [endl]; [before] when there is
    no call. *)
Definition ends_with_newline (outs : list output) (before : bool) : bool :=
  last (map is_newline outs) before.

(** The chunks the values [ts] are written as. *)
Definition texts {T} `{Insertable T} (ts : list T) : list chunk :=
  map (fun t => Text (render t)) ts.

(** The two guarded statements for one chunk, [std_out] first. *)
Definition both (s : LogStream) (c : chunk) : list emission :=
  insertions via_std_out s [c] ++ insertions via_file s [c].

(** Whether an insertion through [m] is made and lands in stream [o]. *)
Definition reaches (o : ostream) (m : member) (s : LogStream) : bool :=
  match target m s with
  | Some o' => N.eqb o' o && passes m s
  | None => false
  end.

(** Every chunk two times in a row. *)
Definition twice (cs : list chunk) : list chunk :=
  flat_map (fun c => [c; c]) cs.

(** Two prefixes and a line head due, with the stream of [std_out]
    itself attached. *)
Definition console_attached : LogStream :=
  mkLogStream ["iter"; "solve"]%string cerr (Some cerr) true 5%N 99%N false.

(** What [print_line_head] inserts for the line made of the values [ts]
    and started in state [s]: [operator<<] runs it before the first value,
    and only if a line head is due. *)
Definition head_emitted (print_head : action unit)
    {T} (ts : list T) (s : LogStream) : list emission :=
  match ts with
  | [] => []
  | _ :: _ => if was_endl s then emitted (print_head s) else []
  end.

(** ** Running the monad *)

Lemma bind_returned {A B} (m : action A) (k : A -> action B) s a s1 o1 :
  m s = (Returned a, s1, o1) ->
  bind m k s = (outcome (k a s1), object (k a s1), o1 ++ emitted (k a s1)).
Proof.
  intros E. unfold bind. rewrite E.
  destruct (k a s1) as [[r s2] o2]. reflexivity.
Qed.

Lemma set_was_endl_same s : set_was_endl (was_endl s) s = s.
Proof. destruct s; reflexivity. Qed.

(** ** The guarded insertions *)

Lemma insert_std_out_if_shallow_run c s :
  insert_std_out_if_shallow c s
  = (Returned tt, s, insertions via_std_out s [c]).
Proof.
  unfold insert_std_out_if_shallow, insert_std_out, insertions, bind, gets,
    when, emit, ret; simpl.
  destruct (size s <=? std_depth s)%N; reflexivity.
Qed.

Lemma insert_file_if_shallow_run c s :
  insert_file_if_shallow c s
  = (Returned tt, s, insertions via_file s [c]).
Proof.
  unfold insert_file_if_shallow, insertions, bind, gets, when, emit, ret;
    simpl.
  destruct (file s) as [o|]; [|reflexivity].
  destruct (size s <=? file_depth s)%N; reflexivity.
Qed.

Lemma insertions_cons m s c cs :
  insertions m s (c :: cs) = insertions m s [c] ++ insertions m s cs.
Proof.
  unfold insertions.
  destruct (target m s); [|reflexivity].
  destruct (passes m s); reflexivity.
Qed.

Lemma insertions_nil m s : insertions m s [] = [].
Proof.
  unfold insertions.
  destruct (target m s); [|reflexivity].
  destruct (passes m s); reflexivity.
Qed.

Lemma for_each_std_out_run cs s :
  for_each insert_std_out_if_shallow cs s
  = (Returned tt, s, insertions via_std_out s cs).
Proof.
  induction cs as [|c cs IH]; simpl.
  - rewrite insertions_nil. reflexivity.
  - rewrite (bind_returned _ _ _ (insert_std_out_if_shallow_run c s)).
    rewrite IH. unfold outcome, object, emitted; simpl.
    rewrite <- insertions_cons. reflexivity.
Qed.

Lemma for_each_file_run cs s :
  for_each insert_file_if_shallow cs s
  = (Returned tt, s, insertions via_file s cs).
Proof.
  induction cs as [|c cs IH]; simpl.
  - rewrite insertions_nil. reflexivity.
  - rewrite (bind_returned _ _ _ (insert_file_if_shallow_run c s)).
    rewrite IH. unfold outcome, object, emitted; simpl.
    rewrite <- insertions_cons. reflexivity.
Qed.

Lemma print_line_head_run s :
  print_line_head s
  = (Returned tt, s,
     insertions via_std_out s (line_head s)
     ++ insertions via_file s (line_head s)).
Proof.
  unfold print_line_head.
  rewrite (bind_returned _ _ s (eq_refl : gets line_head s = (_, _, _))).
  rewrite (bind_returned _ _ s (for_each_std_out_run (line_head s) s)).
  rewrite for_each_file_run. reflexivity.
Qed.

(** The state-independent part of the guards: neither flag enters them. *)
Lemma insertions_set_was_endl m b s cs :
  insertions m (set_was_endl b s) cs = insertions m s cs.
Proof. destruct s, m; reflexivity. Qed.

(** Closed form of [operator<<]. *)
Lemma operator_shl_run {T} `{Insertable T} (t : T) s :
  operator_shl t s
  = (Returned tt, set_was_endl false s,
     (if was_endl s
      then insertions via_std_out s (line_head s)
           ++ insertions via_file s (line_head s)
      else [])
     ++ insertions via_std_out s [Text (render t)]
     ++ insertions via_file s [Text (render t)]).
Proof.
  unfold operator_shl.
  rewrite (bind_returned _ _ s (eq_refl : gets was_endl s = (_, _, _))).
  simpl app.
  assert (W : when (was_endl s)
                (print_line_head ;; modify (set_was_endl false)) s
              = (Returned tt, set_was_endl false s,
                 if was_endl s
                 then insertions via_std_out s (line_head s)
                      ++ insertions via_file s (line_head s)
                 else [])).
  { destruct (was_endl s) eqn:E; unfold when.
    - rewrite (bind_returned _ _ s (print_line_head_run s)).
      unfold modify, outcome, object, emitted; simpl.
      rewrite app_nil_r. reflexivity.
    - unfold ret. rewrite <- E, set_was_endl_same. reflexivity. }
  rewrite (bind_returned _ _ s W).
  rewrite (bind_returned _ _ _
             (insert_std_out_if_shallow_run _ (set_was_endl false s))).
  rewrite insert_file_if_shallow_run.
  unfold outcome, object, emitted; simpl fst; simpl snd.
  rewrite !insertions_set_was_endl. reflexivity.
Qed.

(** Closed form of [endl]. *)
Lemma endl_run s :
  endl s
  = (Returned tt, set_was_endl true s,
     insertions via_std_out s [Endl] ++ insertions via_file s [Endl]).
Proof.
  unfold endl.
  rewrite (bind_returned _ _ s (insert_std_out_if_shallow_run Endl s)).
  rewrite (bind_returned _ _ s (insert_file_if_shallow_run Endl s)).
  unfold modify, outcome, object, emitted; simpl.
  rewrite app_nil_r. reflexivity.
Qed.

(** ** Projections of the output *)

Lemma sent_app m es1 es2 : sent m (es1 ++ es2) = sent m es1 ++ sent m es2.
Proof. unfold sent. rewrite filter_app, map_app. reflexivity. Qed.

Lemma sent_map_same m o cs : sent m (map (Emit m o) cs) = cs.
Proof.
  unfold sent. induction cs as [|c cs IH]; simpl; [reflexivity|].
  destruct m; simpl; f_equal; exact IH.
Qed.

Lemma sent_map_other m m' o cs :
  member_eqb m' m = false -> sent m (map (Emit m' o) cs) = [].
Proof.
  intros E. unfold sent. induction cs as [|c cs IH]; simpl; [reflexivity|].
  rewrite E. exact IH.
Qed.

Lemma passes_target m s : passes m s = true -> exists o, target m s = Some o.
Proof.
  destruct m; simpl.
  - eauto.
  - destruct (file s); [eauto | discriminate].
Qed.

Lemma sent_insertions m m' s cs :
  sent m (insertions m' s cs)
  = if member_eqb m' m && passes m' s then cs else [].
Proof.
  unfold insertions.
  destruct (passes m' s) eqn:P.
  - destruct (passes_target _ _ P) as [o ->].
    rewrite andb_true_r. destruct (member_eqb m' m) eqn:E.
    + destruct m, m'; try discriminate; apply sent_map_same.
    + apply sent_map_other; exact E.
  - rewrite andb_false_r. destruct (target m' s); reflexivity.
Qed.

Lemma sent_insertions_both m s cs :
  sent m (insertions via_std_out s cs ++ insertions via_file s cs)
  = if passes m s then cs else [].
Proof.
  rewrite sent_app, !sent_insertions.
  destruct m; simpl.
  - rewrite app_nil_r. reflexivity.
  - reflexivity.
Qed.

Lemma received_map o m o' cs :
  received o (map (Emit m o') cs) = if N.eqb o' o then cs else [].
Proof.
  unfold received. induction cs as [|c cs IH]; simpl.
  - destruct (N.eqb o' o); reflexivity.
  - destruct (N.eqb o' o) eqn:E; simpl; [f_equal|]; exact IH.
Qed.

(** What reaches the stream behind [std_out] is what was inserted through
    [std_out], provided the attached stream, if any, is another stream.
    (When [file] points to the stream of [std_out], that stream also
    receives what is inserted through [file].) *)
Lemma received_std_out_insertions s cs :
  file s <> Some (std_out s) ->
  received (std_out s)
    (insertions via_std_out s cs ++ insertions via_file s cs)
  = if passes via_std_out s then cs else [].
Proof.
  intros F. unfold received. rewrite filter_app, map_app.
  fold (received (std_out s) (insertions via_std_out s cs)).
  fold (received (std_out s) (insertions via_file s cs)).
  unfold insertions; simpl.
  assert (R : received (std_out s)
                match file s with
                | Some o =>
                    if match file s with
                       | Some _ => (size s <=? file_depth s)%N
                       | None => false
                       end
                    then map (Emit via_file o) cs else []
                | None => []
                end = []).
  { destruct (file s) as [o|]; [|reflexivity].
    destruct (size s <=? file_depth s)%N; [|reflexivity].
    rewrite received_map. destruct (N.eqb o (std_out s)) eqn:E; [|reflexivity].
    apply N.eqb_eq in E. subst o. exfalso. apply F. reflexivity. }
  rewrite R, app_nil_r.
  destruct (size s <=? std_depth s)%N; [|reflexivity].
  rewrite received_map, N.eqb_refl. reflexivity.
Qed.

(** ** Frame of the output calls *)

Lemma operator_shl_object {T} `{Insertable T} (t : T) s :
  object (operator_shl t s) = set_was_endl false s.
Proof. rewrite operator_shl_run. reflexivity. Qed.

Lemma endl_object s : object (endl s) = set_was_endl true s.
Proof. rewrite endl_run. reflexivity. Qed.

Lemma passes_set_was_endl m b s : passes m (set_was_endl b s) = passes m s.
Proof. destruct s, m; reflexivity. Qed.

Lemma perform_output_object c s :
  is_output c = true ->
  exists b, perform c s = (Returned tt, set_was_endl b s, emitted (perform c s)).
Proof.
  destruct c; try discriminate; intros _; simpl.
  - exists false. rewrite operator_shl_run. reflexivity.
  - exists true. rewrite endl_run. reflexivity.
Qed.

(** Any run of output calls returns and leaves every guard as it was. *)
Lemma perform_all_output cs : forall s,
  forallb is_output cs = true ->
  outcome (perform_all cs s) = Returned tt
  /\ forall m, passes m (object (perform_all cs s)) = passes m s.
Proof.
  induction cs as [|c cs IH]; intros s O; simpl in *.
  - split; reflexivity.
  - apply andb_true_iff in O. destruct O as [Oc Ocs].
    destruct (perform_output_object c s Oc) as [b E].
    rewrite (bind_returned _ _ s E).
    unfold outcome, object; simpl.
    destruct (IH (set_was_endl b s) Ocs) as [R P].
    split; [exact R|].
    intros m. unfold object in P. rewrite P. apply passes_set_was_endl.
Qed.

(** ** Depth filtering *)

(** C1. With a second stream attached, console depth 1 and file depth 99:
    at two prefixes a write inserts the rendered value (after the line head,
    when one is due) into the attached stream only and nothing through
    [std_out], so that the stream behind [std_out] receives nothing unless
    it is itself the attached stream; after one [pop], every later write,
    however many outputs came in between, is inserted through both
    pointers. *)
Theorem C1_file_only_at_depth_two_both_after_pop
  {T} `{Insertable T} (t : T) (s : LogStream) (f : ostream) :
  file s = Some f ->
  std_depth s = 1%N ->
  file_depth s = 99%N ->
  length (prefixes s) = 2 ->
  emitted (operator_shl t s)
  = map (Emit via_file f)
        ((if was_endl s then line_head s else []) ++ [Text (render t)])
  /\ sent via_std_out (emitted (operator_shl t s)) = []
  /\ (f <> std_out s ->
      received (std_out s) (emitted (operator_shl t s)) = [])
  /\ outcome (pop s) = Returned tt
  /\ length (prefixes (object (pop s))) = 1
  /\ forall (cs : list call) (t' : T) (m : member),
       forallb is_output cs = true ->
       let s' := object (perform_all cs (object (pop s))) in
       sent m (emitted (operator_shl t' s'))
       = (if was_endl s' then line_head s' else []) ++ [Text (render t')].
Proof.
  intros Hf Hsd Hfd Hlen.
  assert (Pso : passes via_std_out s = false).
  { unfold passes, size. rewrite Hsd, Hlen. reflexivity. }
  assert (Pf : passes via_file s = true).
  { unfold passes, size. rewrite Hf, Hfd, Hlen. reflexivity. }
  assert (E : emitted (operator_shl t s)
              = map (Emit via_file f)
                  ((if was_endl s then line_head s else [])
                   ++ [Text (render t)])).
  { rewrite operator_shl_run. unfold emitted; cbn [snd].
    unfold insertions. rewrite Pso, Pf. cbn [target]. rewrite Hf.
    destruct (was_endl s); cbn [app]; [rewrite map_app|]; reflexivity. }
  split; [exact E|].
  split.
  { rewrite E. apply sent_map_other. reflexivity. }
  split.
  { intros NE. rewrite E, received_map.
    destruct (N.eqb f (std_out s)) eqn:Q; [|reflexivity].
    apply N.eqb_eq in Q. contradiction. }
  destruct s as [p so fl we sd fd pu]; simpl in *; subst.
  destruct p as [|top [|below [|]]]; try discriminate.
  split; [reflexivity|]. split; [reflexivity|].
  intros cs t' m O.
  set (s1 := object (pop _)).
  destruct (perform_all_output cs s1 O) as [_ P].
  rewrite operator_shl_run. unfold emitted; cbn [snd].
  rewrite sent_app, (sent_app m (insertions via_std_out _ _)).
  rewrite !sent_insertions.
  assert (Pm : forall m', passes m' (object (perform_all cs s1)) = true).
  { intros m'. rewrite P. destruct m'; reflexivity. }
  destruct (was_endl (object (perform_all cs s1))).
  - rewrite sent_insertions_both, !Pm.
    destruct m; simpl; rewrite ?app_nil_r; reflexivity.
  - rewrite !Pm. destruct m; reflexivity.
Qed.

Lemma C1_witness :
  emitted (operator_shl "x"%string two_deep)
  = [Emit via_file 7%N (Text "solve:iter:"); Emit via_file 7%N (Text "x")]
  /\ sent via_std_out (emitted (operator_shl "x"%string two_deep)) = []
  /\ received cerr (emitted (operator_shl "x"%string two_deep)) = []
  /\ sent via_std_out
       (emitted (operator_shl "z"%string
                   (object (perform_all [Shl "y"; Endl_]
                                        (object (pop two_deep))))))
     = [Text "solve:"; Text "z"].
Proof.
  destruct (@C1_file_only_at_depth_two_both_after_pop
              string _ "x"%string two_deep 7%N
              eq_refl eq_refl eq_refl eq_refl) as (E & Q & R & _ & _ & A).
  split; [exact E|]. split; [exact Q|]. split.
  - apply R. discriminate.
  - apply (A [Shl "y"; Endl_] "z"%string via_std_out). reflexivity.
Defined.


(** ** The flag [was_endl] *)

(** C4. Every [endl] sets [was_endl], whatever the depth guards decide, and
    every [operator<<] leaves it cleared, whether or not it inserted
    anything; in particular the first write after an [endl] clears it. *)
Theorem C4_was_endl_set_by_endl_cleared_by_write
  {T} `{Insertable T} (t : T) (s : LogStream) :
  was_endl (object (endl s)) = true
  /\ was_endl (object (operator_shl t s)) = false
  /\ was_endl (object (operator_shl t (object (endl s)))) = false.
Proof.
  rewrite !operator_shl_object, endl_object. repeat split.
Qed.

(** ** When the line head is printed *)

Lemma line_head_set_was_endl b s : line_head (set_was_endl b s) = line_head s.
Proof. destruct s; reflexivity. Qed.

(** What a write inserts through one member pointer. *)
Lemma sent_operator_shl {T} `{Insertable T} (t : T) s m :
  sent m (emitted (operator_shl t s))
  = if passes m s
    then (if was_endl s then line_head s else []) ++ [Text (render t)]
    else [].
Proof.
  rewrite operator_shl_run. unfold emitted; cbn [snd].
  rewrite sent_app, sent_insertions_both.
  destruct (was_endl s).
  - rewrite sent_insertions_both. destruct (passes m s); reflexivity.
  - destruct (passes m s); reflexivity.
Qed.

(** What [endl] inserts through one member pointer. *)
Lemma sent_endl s m :
  sent m (emitted (endl s)) = if passes m s then [Endl] else [].
Proof.
  rewrite endl_run. unfold emitted; cbn [snd].
  apply sent_insertions_both.
Qed.

Lemma sent_bind {A B} (a : action A) (k : A -> action B) s m r :
  outcome (a s) = Returned r ->
  sent m (emitted (bind a k s))
  = sent m (emitted (a s)) ++ sent m (emitted (k r (object (a s)))).
Proof.
  destruct (a s) as [[r' s1] o1] eqn:E. unfold outcome; simpl. intros ->.
  rewrite (bind_returned _ _ _ E).
  unfold emitted, object; cbn [fst snd]. apply sent_app.
Qed.

Lemma operator_shl_outcome {T} `{Insertable T} (t : T) s :
  outcome (operator_shl t s) = Returned tt.
Proof. rewrite operator_shl_run. reflexivity. Qed.

Lemma endl_outcome s : outcome (endl s) = Returned tt.
Proof. rewrite endl_run. reflexivity. Qed.

(** C5. After [endl], a write inserts the line head and then, with nothing
    in between, the rendered value through every member pointer whose
    guard passes at that moment; of two writes in a row, the second inserts
    its value only, so no line head separates the two texts. *)
Theorem C5_line_head_right_before_first_write_only
  {T} `{Insertable T} (x a b : T) (s : LogStream) (m : member) :
  (let s1 := object (endl s) in
   sent m (emitted (operator_shl x s1))
   = if passes m s1 then line_head s1 ++ [Text (render x)] else [])
  /\ sent m (emitted ((endl ;; operator_shl x) s))
     = (if passes m s then Endl :: line_head s ++ [Text (render x)] else [])
  /\ (let s2 := object (operator_shl a s) in
      sent m (emitted (operator_shl b s2))
      = if passes m s2 then [Text (render b)] else [])
  /\ sent m (emitted ((operator_shl a ;; operator_shl b) s))
     = (if passes m s
        then (if was_endl s then line_head s else [])
             ++ [Text (render a); Text (render b)]
        else []).
Proof.
  repeat split.
  - cbv zeta. rewrite sent_operator_shl, endl_object. reflexivity.
  - rewrite (sent_bind _ _ s m (endl_outcome s)).
    rewrite sent_endl, sent_operator_shl, endl_object.
    rewrite passes_set_was_endl, line_head_set_was_endl.
    destruct (passes m s); reflexivity.
  - cbv zeta. rewrite sent_operator_shl, operator_shl_object. reflexivity.
  - rewrite (sent_bind _ _ s m (operator_shl_outcome a s)).
    rewrite !sent_operator_shl, operator_shl_object, passes_set_was_endl.
    destruct (passes m s); [|reflexivity].
    cbn [was_endl set_was_endl]. rewrite <- app_assoc. reflexivity.
Qed.

(** C10. [endl] inserts line breaks only, never a line head: through each
    member pointer whose guard passes, the second of two consecutive [endl]
    inserts a single [std::endl] and nothing else; a line head is inserted
    by a write, and only when [was_endl] is set. *)
Theorem C10_endl_inserts_no_line_head (s : LogStream) (m : member) :
  sent m (emitted (endl s)) = (if passes m s then [Endl] else [])
  /\ (let s1 := object (endl s) in
      sent m (emitted (endl s1)) = if passes m s1 then [Endl] else [])
  /\ sent m (emitted ((endl ;; endl) s))
     = (if passes m s then [Endl; Endl] else [])
  /\ (forall T (I : Insertable T) (t : T),
        sent m (emitted (operator_shl t (set_was_endl false s)))
        = if passes m s then [Text (render t)] else []).
Proof.
  repeat split.
  - apply sent_endl.
  - cbv zeta. apply sent_endl.
  - rewrite (sent_bind _ _ s m (endl_outcome s)).
    rewrite !sent_endl, endl_object, passes_set_was_endl.
    destruct (passes m s); reflexivity.
  - intros T I t. rewrite sent_operator_shl, passes_set_was_endl.
    destruct (passes m s); reflexivity.
Qed.

(** ** Frame *)

(** C9. [operator<<] and [endl] leave the prefix stack, both stream
    pointers, both depths and the time flag as they were: the object after
    the call is the object before it with [was_endl] overwritten. *)
Theorem C9_output_calls_change_was_endl_only
  {T} `{Insertable T} (t : T) (s : LogStream) :
  (let s' := object (operator_shl t s) in
   s' = set_was_endl false s
   /\ prefixes s' = prefixes s /\ std_out s' = std_out s /\ file s' = file s
   /\ std_depth s' = std_depth s /\ file_depth s' = file_depth s
   /\ print_utime s' = print_utime s)
  /\ (let s' := object (endl s) in
      s' = set_was_endl true s
      /\ prefixes s' = prefixes s /\ std_out s' = std_out s /\ file s' = file s
      /\ std_depth s' = std_depth s /\ file_depth s' = file_depth s
      /\ print_utime s' = print_utime s).
Proof.
  cbv zeta. rewrite operator_shl_object, endl_object.
  repeat split.
Qed.

(** ** Console depth 0 *)





(** ** Errors *)

(** C8. [get_file_stream] throws [ExcNoFileStreamGiven] when no stream is
    attached and returns the attached stream otherwise, leaving the object
    alone either way; [operator<<] and [endl] always return; and a call
    that throws is either [pop] on an empty stack or [get_file_stream]
    without a stream, so the depths never cause an exception. *)
Theorem C8_no_file_stream_is_thrown_depth_never
  (s : LogStream) :
  (file s = None -> get_file_stream s = (Thrown ExcNoFileStreamGiven, s, []))
  /\ (forall o, file s = Some o -> get_file_stream s = (Returned o, s, []))
  /\ (forall T (I : Insertable T) (t : T),
        outcome (operator_shl t s) = Returned tt)
  /\ outcome (endl s) = Returned tt
  /\ (forall c e,
        outcome (perform c s) = Thrown e ->
        (c = Pop /\ prefixes s = [] /\ e = ExcScopeUnderflow)
        \/ (c = GetFileStream /\ file s = None /\ e = ExcNoFileStreamGiven)).
Proof.
  repeat split.
  - intros E. unfold get_file_stream, bind, gets; simpl. rewrite E. reflexivity.
  - intros o E. unfold get_file_stream, bind, gets; simpl. rewrite E.
    reflexivity.
  - intros T I t. apply operator_shl_outcome.
  - apply endl_outcome.
  - intros c e. destruct c; simpl;
      try (unfold outcome; simpl; discriminate).
    + unfold pop, bind, gets, outcome; simpl.
      destruct (prefixes s); simpl; [|discriminate].
      intros E; injection E as <-. left. repeat split.
    + unfold get_file_stream, bind, gets, outcome; simpl.
      destruct (file s); simpl; [discriminate|].
      intros E; injection E as <-. right. repeat split.
    + rewrite operator_shl_outcome. discriminate.
    + rewrite endl_outcome. discriminate.
Qed.

Lemma C8_witness :
  get_file_stream console_off
  = (Thrown ExcNoFileStreamGiven, console_off, [])
  /\ get_file_stream two_deep = (Returned 7%N, two_deep, [])
  /\ ((Pop = Pop /\ prefixes console_off = []
       /\ ExcScopeUnderflow = ExcScopeUnderflow)
      \/ (Pop = GetFileStream /\ file console_off = None
          /\ ExcScopeUnderflow = ExcNoFileStreamGiven)).
Proof.
  split; [|split].
  - apply (proj1 (C8_no_file_stream_is_thrown_depth_never console_off)).
    reflexivity.
  - apply (proj1 (proj2 (C8_no_file_stream_is_thrown_depth_never two_deep))).
    reflexivity.
  - apply (proj2 (proj2 (proj2 (proj2
             (C8_no_file_stream_is_thrown_depth_never console_off))))
             Pop ExcScopeUnderflow).
    reflexivity.
Defined.

(** * Further properties of [operator<<] and [endl]

    The statements below hold for every [print_line_head] that only
    prints; the modelled one is an instance. *)

Lemma operator_shl_is_with {T} `{Insertable T} (t : T) :
  operator_shl t = operator_shl_with print_line_head t.
Proof. reflexivity. Qed.

Lemma print_line_head_only_prints : only_prints print_line_head.
Proof. intros s. rewrite print_line_head_run. split; reflexivity. Qed.

Lemma only_prints_run a s :
  only_prints a -> a s = (Returned tt, s, emitted (a s)).
Proof.
  intros O. destruct (O s) as [R S].
  destruct (a s) as [[r s'] es]. unfold outcome, object in *; simpl in *.
  subst. reflexivity.
Qed.

Lemma set_was_endl_twice b b' s :
  set_was_endl b (set_was_endl b' s) = set_was_endl b s.
Proof. destruct s; reflexivity. Qed.

Lemma set_was_endl_known b s : was_endl s = b -> set_was_endl b s = s.
Proof. intros <-. apply set_was_endl_same. Qed.

Lemma both_set_was_endl b s c : both (set_was_endl b s) c = both s c.
Proof. unfold both. rewrite !insertions_set_was_endl. reflexivity. Qed.

Lemma flat_map_both_set_was_endl b s cs :
  flat_map (both (set_was_endl b s)) cs = flat_map (both s) cs.
Proof.
  induction cs as [|c cs IH]; simpl; [reflexivity|].
  rewrite both_set_was_endl, IH. reflexivity.
Qed.

(** Closed form of [operator<<], whatever prints the line head. *)
Lemma operator_shl_with_run plh {T} `{Insertable T} (t : T) s :
  only_prints plh ->
  operator_shl_with plh t s
  = (Returned tt, set_was_endl false s,
     (if was_endl s then emitted (plh s) else [])
     ++ both s (Text (render t))).
Proof.
  intros O. unfold operator_shl_with.
  rewrite (bind_returned _ _ s (eq_refl : gets was_endl s = (_, _, _))).
  cbn [app].
  assert (W : when (was_endl s) (plh ;; modify (set_was_endl false)) s
              = (Returned tt, set_was_endl false s,
                 if was_endl s then emitted (plh s) else [])).
  { destruct (was_endl s) eqn:E; unfold when.
    - rewrite (bind_returned _ _ s (@only_prints_run plh s O)).
      unfold modify, outcome, object, emitted; cbn [fst snd].
      rewrite app_nil_r. reflexivity.
    - unfold ret. rewrite (@set_was_endl_known false s E). reflexivity. }
  rewrite (bind_returned _ _ s W).
  rewrite (bind_returned _ _ _
             (insert_std_out_if_shallow_run _ (set_was_endl false s))).
  rewrite insert_file_if_shallow_run.
  unfold outcome, object, emitted, both; cbn [fst snd].
  rewrite !insertions_set_was_endl. reflexivity.
Qed.

(** In the middle of a line [print_line_head] is not called at all. *)
Lemma operator_shl_with_midline plh {T} `{Insertable T} (t : T) s :
  was_endl s = false ->
  operator_shl_with plh t s = (Returned tt, s, both s (Text (render t))).
Proof.
  intros E. unfold operator_shl_with, bind, gets. cbv beta iota.
  rewrite E. unfold when, ret. cbv beta iota.
  rewrite insert_std_out_if_shallow_run, insert_file_if_shallow_run.
  reflexivity.
Qed.

Lemma write_all_with_midline plh {T} `{Insertable T} (ts : list T) s :
  was_endl s = false ->
  write_all_with plh ts s = (Returned tt, s, flat_map (both s) (texts ts)).
Proof.
  intros E. unfold write_all_with.
  induction ts as [|t ts IH]; [reflexivity|].
  cbn [for_each].
  rewrite (bind_returned _ _ s (@operator_shl_with_midline plh _ _ t s E)).
  rewrite IH. reflexivity.
Qed.

Lemma line_with_midline plh {T} `{Insertable T} (ts : list T) s :
  was_endl s = false ->
  line_with plh ts s
  = (Returned tt, set_was_endl true s,
     flat_map (both s) (texts ts ++ [Endl])).
Proof.
  intros E. unfold line_with.
  rewrite (bind_returned _ _ s (@write_all_with_midline plh _ _ ts s E)).
  rewrite endl_run. unfold outcome, object, emitted; cbn [fst snd].
  rewrite flat_map_app. cbn [flat_map]. rewrite app_nil_r. reflexivity.
Qed.

Lemma write_all_with_run plh {T} `{Insertable T} (t : T) (ts : list T) s :
  only_prints plh ->
  write_all_with plh (t :: ts) s
  = (Returned tt, set_was_endl false s,
     (if was_endl s then emitted (plh s) else [])
     ++ flat_map (both s) (texts (t :: ts))).
Proof.
  intros O. unfold write_all_with. cbn [for_each].
  rewrite (bind_returned _ _ s (@operator_shl_with_run plh _ _ t s O)).
  fold (write_all_with plh ts (set_was_endl false s)).
  rewrite (@write_all_with_midline plh _ _ ts (set_was_endl false s) eq_refl).
  unfold outcome, object, emitted; cbn [fst snd].
  rewrite flat_map_both_set_was_endl, <- app_assoc. reflexivity.
Qed.

Lemma sent_flat_map_both m s cs :
  sent m (flat_map (both s) cs) = if passes m s then cs else [].
Proof.
  induction cs as [|c cs IH]; cbn [flat_map].
  - destruct (passes m s); reflexivity.
  - rewrite sent_app, IH. unfold both. rewrite sent_insertions_both.
    destruct (passes m s); reflexivity.
Qed.

(** ** One line head per line *)

(** X1. However many values are written in a row, [print_line_head] is run
    at most once, before the first value and only if a line head was due;
    all the values follow, and the flag ends up cleared. *)
Theorem X1_one_line_head_for_a_run_of_writes
  (plh : action unit) {T} `{Insertable T} (t : T) (ts : list T)
  (s : LogStream) :
  only_prints plh ->
  outcome (write_all_with plh (t :: ts) s) = Returned tt
  /\ object (write_all_with plh (t :: ts) s) = set_was_endl false s
  /\ emitted (write_all_with plh (t :: ts) s)
     = (if was_endl s then emitted (plh s) else [])
       ++ flat_map (both s) (texts (t :: ts))
  /\ forall m,
       sent m (emitted (write_all_with plh (t :: ts) s))
       = (if was_endl s then sent m (emitted (plh s)) else [])
         ++ (if passes m s then texts (t :: ts) else []).
Proof.
  intros O. rewrite (@write_all_with_run plh _ _ t ts s O).
  repeat split. intros m. unfold emitted at 1; cbn [snd].
  rewrite sent_app, sent_flat_map_both.
  destruct (was_endl s); reflexivity.
Qed.

Lemma X1_witness :
  sent via_file
    (emitted (write_all_with print_line_head ["a"; "b"; "c"]%string two_deep))
  = [Text "solve:iter:"; Text "a"; Text "b"; Text "c"].
Proof.
  apply (proj2 (proj2 (proj2
           (@X1_one_line_head_for_a_run_of_writes
              print_line_head string _ "a"%string ["b"; "c"]%string two_deep
              print_line_head_only_prints)))
           via_file).
Defined.

Lemma line_with_run plh {T} `{Insertable T} (ts : list T) s :
  only_prints plh ->
  line_with plh ts s
  = (Returned tt, set_was_endl true s,
     match ts with
     | [] => []
     | _ :: _ => if was_endl s then emitted (plh s) else []
     end ++ flat_map (both s) (texts ts ++ [Endl])).
Proof.
  intros O. unfold line_with. destruct ts as [|t ts].
  - rewrite (bind_returned _ _ s (eq_refl : ret tt s = (_, _, _))).
    rewrite endl_run. unfold outcome, object, emitted, texts, both.
    cbn [fst snd map app flat_map]. rewrite app_nil_r. reflexivity.
  - rewrite (bind_returned _ _ s (@write_all_with_run plh _ _ t ts s O)).
    rewrite endl_run. unfold outcome, object, emitted; cbn [fst snd].
    rewrite set_was_endl_twice, !insertions_set_was_endl.
    rewrite flat_map_app. cbn [flat_map]. unfold both at 3.
    rewrite app_nil_r, <- app_assoc. reflexivity.
Qed.

(** X2. Started where a line head is due, a complete line (any values,
    then [endl]) leaves the object exactly as it found it, so lines
    compose: through each member pointer every line with at least one
    value shows what [print_line_head] printed, and every line shows its
    values and one [std::endl] if the guard of that pointer passes. *)
Theorem X2_lines_compose
  (plh : action unit) {T} `{Insertable T} (lines : list (list T))
  (s : LogStream) :
  only_prints plh ->
  was_endl s = true ->
  outcome (for_each (line_with plh) lines s) = Returned tt
  /\ object (for_each (line_with plh) lines s) = s
  /\ forall m,
       sent m (emitted (for_each (line_with plh) lines s))
       = flat_map
           (fun ts =>
              match ts with
              | [] => []
              | _ :: _ => sent m (emitted (plh s))
              end ++ (if passes m s then texts ts ++ [Endl] else []))
           lines.
Proof.
  intros O W.
  assert (L : forall ts,
             line_with plh ts s
             = (Returned tt, s,
                match ts with
                | [] => []
                | _ :: _ => emitted (plh s)
                end ++ flat_map (both s) (texts ts ++ [Endl]))).
  { intros ts. rewrite (@line_with_run plh _ _ ts s O), W.
    rewrite (@set_was_endl_known true s W). reflexivity. }
  induction lines as [|ts lines IH]; cbn [for_each flat_map].
  - repeat split.
  - rewrite (bind_returned _ _ s (L ts)).
    destruct IH as (R & S & E).
    unfold outcome at 1, object at 1; cbn [fst snd].
    split; [exact R|]. split; [exact S|].
    intros m. unfold emitted at 1; cbn [snd].
    rewrite !sent_app, sent_flat_map_both, E.
    destruct ts; reflexivity.
Qed.

Lemma X2_witness :
  sent via_file
    (emitted (for_each (line_with print_line_head)
                [["a"; "b"]; []; ["c"]]%string two_deep))
  = [Text "solve:iter:"; Text "a"; Text "b"; Endl;
     Endl;
     Text "solve:iter:"; Text "c"; Endl].
Proof.
  apply (proj2 (proj2
           (@X2_lines_compose print_line_head string _
              [["a"; "b"]; []; ["c"]]%string two_deep
              print_line_head_only_prints eq_refl))
           via_file).
Defined.

(** ** The flag follows the last call *)

Lemma last_default {A} (a : A) (l : list A) (d d' : A) :
  last (a :: l) d = last (a :: l) d'.
Proof.
  revert a. induction l as [|b l IH]; intros a; [reflexivity|].
  change (last (b :: l) d = last (b :: l) d'). apply IH.
Qed.

Lemma last_cons {A} (a : A) (l : list A) (d : A) :
  last (a :: l) d = last l a.
Proof.
  destruct l as [|b l]; [reflexivity|].
  change (last (b :: l) d = last (b :: l) a). apply last_default.
Qed.

Lemma put_with_run plh o s :
  only_prints plh ->
  put_with plh o s
  = (Returned tt, set_was_endl (is_newline o) s, emitted (put_with plh o s)).
Proof.
  intros O. destruct o as [t|]; cbn [put_with is_newline].
  - rewrite (@operator_shl_with_run plh _ _ t s O). reflexivity.
  - rewrite endl_run. reflexivity.
Qed.

(** X3. After any sequence of output calls, [was_endl] tells whether the
    last call was [endl] (it keeps its value when there was no call), and
    no other data member has changed. *)
Theorem X3_was_endl_tells_last_call
  (plh : action unit) (outs : list output) (s : LogStream) :
  only_prints plh ->
  outcome (for_each (put_with plh) outs s) = Returned tt
  /\ object (for_each (put_with plh) outs s)
     = set_was_endl (ends_with_newline outs (was_endl s)) s.
Proof.
  intros O. unfold ends_with_newline.
  revert s. induction outs as [|o outs IH]; intros s; cbn [for_each map].
  - split; [reflexivity|]. cbn [last]. symmetry. apply set_was_endl_same.
  - rewrite (bind_returned _ _ s (@put_with_run plh o s O)).
    unfold outcome at 1, object at 1; cbn [fst snd].
    destruct (IH (set_was_endl (is_newline o) s)) as [R S].
    split; [exact R|].
    rewrite S, set_was_endl_twice, last_cons. reflexivity.
Qed.

Lemma X3_witness :
  object (for_each (put_with print_line_head)
            [Value "a"; Newline; Newline; Value "b"] two_deep)
  = set_was_endl false two_deep.
Proof.
  apply (proj2 (@X3_was_endl_tells_last_call print_line_head
                  [Value "a"; Newline; Newline; Value "b"] two_deep
                  print_line_head_only_prints)).
Defined.

(** ** The depth filter on the rest of a line *)

(** In the middle of a line, what the rest of the line (values, then
    [endl]) sends through one member pointer. *)
Lemma sent_line_with_midline plh {T} `{Insertable T} (ts : list T) s m :
  was_endl s = false ->
  sent m (emitted (line_with plh ts s))
  = if passes m s then texts ts ++ [Endl] else [].
Proof.
  intros E. rewrite (@line_with_midline plh _ _ ts s E).
  unfold emitted; cbn [snd]. apply sent_flat_map_both.
Qed.

Lemma line_chunks_not_nil (cs : list chunk) : cs ++ [Endl] <> [].
Proof. destruct cs; discriminate. Qed.

(** Whether the rest of a line gets through is the guard. *)
Lemma sent_line_iff plh {T} `{Insertable T} (ts : list T) s m :
  was_endl s = false ->
  (sent m (emitted (line_with plh ts s)) = texts ts ++ [Endl]
   <-> passes m s = true)
  /\ (sent m (emitted (line_with plh ts s)) = [] <-> passes m s = false).
Proof.
  intros E. rewrite (@sent_line_with_midline plh _ _ ts s m E).
  destruct (passes m s); repeat split; intros Q; try reflexivity;
    try discriminate.
  - destruct (line_chunks_not_nil _ Q).
  - symmetry in Q. destruct (line_chunks_not_nil _ Q).
Qed.

Lemma size_deeper more s :
  size (set_prefixes (more ++ prefixes s) s)
  = (N.of_nat (length more) + size s)%N.
Proof.
  unfold size; cbn [prefixes set_prefixes].
  rewrite length_app. lia.
Qed.

(** X4. The filter is monotone: a rest of line that gets through
    [std_out] (resp. [file]) under one depth limit gets through under every
    larger limit, and one that gets through with some prefixes on top of
    the stack also gets through without them. *)
Theorem X4_larger_limit_or_fewer_prefixes_never_hide
  (plh : action unit) {T} `{Insertable T} (ts : list T) (s : LogStream) :
  was_endl s = false ->
  (forall d d',
     (d <= d')%N ->
     sent via_std_out (emitted (line_with plh ts (set_std_depth d s)))
     = texts ts ++ [Endl] ->
     sent via_std_out (emitted (line_with plh ts (set_std_depth d' s)))
     = texts ts ++ [Endl])
  /\ (forall d d',
        (d <= d')%N ->
        sent via_file (emitted (line_with plh ts (set_file_depth d s)))
        = texts ts ++ [Endl] ->
        sent via_file (emitted (line_with plh ts (set_file_depth d' s)))
        = texts ts ++ [Endl])
  /\ (forall m more,
        sent m (emitted
                  (line_with plh ts (set_prefixes (more ++ prefixes s) s)))
        = texts ts ++ [Endl] ->
        sent m (emitted (line_with plh ts s)) = texts ts ++ [Endl]).
Proof.
  intros E. repeat split.
  - intros d d' L Q.
    apply (@sent_line_iff plh _ _ ts (set_std_depth d s) via_std_out E) in Q.
    apply (@sent_line_iff plh _ _ ts (set_std_depth d' s) via_std_out E).
    cbn in Q |- *. apply N.leb_le in Q. apply N.leb_le.
    unfold size in *; cbn in *. lia.
  - intros d d' L Q.
    apply (@sent_line_iff plh _ _ ts (set_file_depth d s) via_file E) in Q.
    apply (@sent_line_iff plh _ _ ts (set_file_depth d' s) via_file E).
    cbn in Q |- *. destruct (file s); [|discriminate].
    apply N.leb_le in Q. apply N.leb_le.
    unfold size in *; cbn in *. lia.
  - intros m more Q.
    apply (@sent_line_iff plh _ _ ts
             (set_prefixes (more ++ prefixes s) s) m E) in Q.
    apply (@sent_line_iff plh _ _ ts s m E).
    pose proof (size_deeper more s) as D.
    destruct m; cbn [passes] in Q |- *.
    + cbn [std_depth set_prefixes] in Q.
      apply N.leb_le in Q. apply N.leb_le. lia.
    + cbn [file file_depth set_prefixes] in Q.
      destruct (file s); [|discriminate].
      apply N.leb_le in Q. apply N.leb_le. lia.
Qed.

Lemma X4_witness :
  sent via_std_out
    (emitted (line_with print_line_head ["x"]%string
                (set_std_depth 5 console_off)))
  = [Text "x"; Endl].
Proof.
  apply (proj1 (@X4_larger_limit_or_fewer_prefixes_never_hide
                  print_line_head string _ ["x"]%string console_off eq_refl)
           0%N 5%N).
  - lia.
  - reflexivity.
Defined.

(** Whatever the state, a line is what [print_line_head] inserted at its
    start, followed by the guarded insertions of its values and of
    [std::endl]. *)
Lemma line_with_emitted plh {T} `{Insertable T} (ts : list T) s :
  only_prints plh ->
  emitted (line_with plh ts s)
  = head_emitted plh ts s ++ flat_map (both s) (texts ts ++ [Endl]).
Proof.
  intros O. rewrite (@line_with_run plh _ _ ts s O). reflexivity.
Qed.

Lemma sent_line_with plh {T} `{Insertable T} (ts : list T) s m :
  only_prints plh ->
  sent m (emitted (line_with plh ts s))
  = sent m (head_emitted plh ts s)
    ++ (if passes m s then texts ts ++ [Endl] else []).
Proof.
  intros O. rewrite (@line_with_emitted plh _ _ ts s O).
  rewrite sent_app, sent_flat_map_both. reflexivity.
Qed.

(** X5. The limit is inclusive, at the start of a line as well as in its
    middle: with exactly as many prefixes as the depth limit, the values
    and [std::endl] get through, after what [print_line_head] inserted;
    with one prefix more, nothing gets through but what [print_line_head]
    inserted.  For [file] this holds when a stream is attached. *)
Theorem X5_limit_is_inclusive
  (plh : action unit) {T} `{Insertable T} (ts : list T) (s : LogStream) :
  only_prints plh ->
  (size s = std_depth s ->
   sent via_std_out (emitted (line_with plh ts s))
   = sent via_std_out (head_emitted plh ts s) ++ texts ts ++ [Endl]
   /\ forall l,
        let s' := set_prefixes (l :: prefixes s) s in
        sent via_std_out (emitted (line_with plh ts s'))
        = sent via_std_out (head_emitted plh ts s'))
  /\ (forall f,
        file s = Some f ->
        size s = file_depth s ->
        sent via_file (emitted (line_with plh ts s))
        = sent via_file (head_emitted plh ts s) ++ texts ts ++ [Endl]
        /\ forall l,
             let s' := set_prefixes (l :: prefixes s) s in
             sent via_file (emitted (line_with plh ts s'))
             = sent via_file (head_emitted plh ts s')).
Proof.
  intros O. split.
  - intros Q. split.
    + rewrite (@sent_line_with plh _ _ ts s via_std_out O).
      replace (passes via_std_out s) with true; [reflexivity|].
      symmetry. cbn. apply N.leb_le. lia.
    + intros l s'.
      rewrite (@sent_line_with plh _ _ ts s' via_std_out O).
      replace (passes via_std_out s') with false;
        [apply app_nil_r|].
      symmetry. pose proof (size_deeper [l] s) as D.
      cbn [app length] in D. subst s'. cbn [passes std_depth set_prefixes].
      apply N.leb_gt. lia.
  - intros f F Q. split.
    + rewrite (@sent_line_with plh _ _ ts s via_file O).
      replace (passes via_file s) with true; [reflexivity|].
      symmetry. cbn. rewrite F. apply N.leb_le. lia.
    + intros l s'.
      rewrite (@sent_line_with plh _ _ ts s' via_file O).
      replace (passes via_file s') with false;
        [apply app_nil_r|].
      symmetry. pose proof (size_deeper [l] s) as D.
      cbn [app length] in D. subst s'.
      cbn [passes file file_depth set_prefixes].
      rewrite F. apply N.leb_gt. lia.
Qed.

Lemma X5_witness :
  sent via_std_out
    (emitted (line_with print_line_head ["x"]%string
                (set_std_depth 2 two_deep)))
  = [Text "solve:iter:"; Text "x"; Endl]
  /\ sent via_std_out
       (emitted (line_with print_line_head ["x"]%string
                   (set_prefixes ["step"; "iter"; "solve"]%string
                      (set_std_depth 2 two_deep))))
     = [].
Proof.
  destruct (proj1 (@X5_limit_is_inclusive
                     print_line_head string _ ["x"]%string
                     (set_std_depth 2 two_deep)
                     print_line_head_only_prints) eq_refl) as [A B].
  split; [exact A | exact (B "step"%string)].
Defined.

(** X6. The two filters are independent.  After what [print_line_head]
    inserted at the start of the line, what goes through [file] is decided
    by the guard of [file] alone, whatever the console limit is, and what
    goes through [std_out] by the guard of [std_out] alone, whatever the
    file limit and the attached stream are; in the middle of a line, where
    [print_line_head] is not run, changing these changes nothing at all. *)
Theorem X6_filters_are_independent
  (plh : action unit) {T} `{Insertable T} (ts : list T) (s : LogStream) :
  only_prints plh ->
  (forall d,
     let s' := set_std_depth d s in
     sent via_file (emitted (line_with plh ts s'))
     = sent via_file (head_emitted plh ts s')
       ++ (if passes via_file s then texts ts ++ [Endl] else []))
  /\ (forall d f,
        let s' := set_file_depth d (set_file f s) in
        sent via_std_out (emitted (line_with plh ts s'))
        = sent via_std_out (head_emitted plh ts s')
          ++ (if passes via_std_out s then texts ts ++ [Endl] else []))
  /\ (was_endl s = false ->
      (forall d,
         sent via_file (emitted (line_with plh ts (set_std_depth d s)))
         = sent via_file (emitted (line_with plh ts s)))
      /\ (forall d f,
            sent via_std_out
              (emitted (line_with plh ts (set_file_depth d (set_file f s))))
            = sent via_std_out (emitted (line_with plh ts s)))).
Proof.
  intros O. split; [|split].
  - intros d s'.
    rewrite (@sent_line_with plh _ _ ts s' via_file O). reflexivity.
  - intros d f s'.
    rewrite (@sent_line_with plh _ _ ts s' via_std_out O). reflexivity.
  - intros E. split.
    + intros d.
      rewrite (@sent_line_with_midline plh _ _ ts
                 (set_std_depth d s) via_file E).
      rewrite (@sent_line_with_midline plh _ _ ts s via_file E).
      reflexivity.
    + intros d f.
      rewrite (@sent_line_with_midline plh _ _ ts
                 (set_file_depth d (set_file f s)) via_std_out E).
      rewrite (@sent_line_with_midline plh _ _ ts s via_std_out E).
      reflexivity.
Qed.

Lemma X6_witness :
  sent via_file
    (emitted (line_with print_line_head ["x"]%string
                (set_std_depth 0 two_deep)))
  = [Text "solve:iter:"; Text "x"; Endl]
  /\ sent via_file
       (emitted (line_with print_line_head ["x"]%string
                   (set_std_depth 0 (set_was_endl false two_deep))))
     = sent via_file
         (emitted (line_with print_line_head ["x"]%string
                     (set_was_endl false two_deep))).
Proof.
  split.
  - apply (proj1 (@X6_filters_are_independent
                    print_line_head string _ ["x"]%string two_deep
                    print_line_head_only_prints) 0%N).
  - apply (proj1 (proj2 (proj2
             (@X6_filters_are_independent
                print_line_head string _ ["x"]%string
                (set_was_endl false two_deep)
                print_line_head_only_prints)) eq_refl) 0%N).
Defined.

(** ** What arrives in the streams *)

Lemma received_app o es1 es2 :
  received o (es1 ++ es2) = received o es1 ++ received o es2.
Proof. unfold received. rewrite filter_app, map_app. reflexivity. Qed.

Lemma received_insertions o m s c :
  received o (insertions m s [c]) = if reaches o m s then [c] else [].
Proof.
  unfold insertions, reaches.
  destruct (target m s) as [o'|]; [|reflexivity].
  destruct (passes m s).
  - rewrite received_map, andb_true_r. reflexivity.
  - rewrite andb_false_r. reflexivity.
Qed.

(** What a stream receives from the guarded pairs of statements: every
    chunk two times, one time, or not at all. *)
Lemma received_flat_map_both o s cs :
  received o (flat_map (both s) cs)
  = match reaches o via_std_out s, reaches o via_file s with
    | true, true => twice cs
    | true, false | false, true => cs
    | false, false => []
    end.
Proof.
  induction cs as [|c cs IH]; cbn [flat_map].
  - destruct (reaches o via_std_out s), (reaches o via_file s); reflexivity.
  - rewrite received_app, IH. unfold both.
    rewrite received_app, !received_insertions.
    destruct (reaches o via_std_out s), (reaches o via_file s); reflexivity.
Qed.

Lemma reaches_other_stream o m s :
  target m s <> Some o -> reaches o m s = false.
Proof.
  unfold reaches. destruct (target m s) as [o'|]; [|reflexivity].
  intros NE. destruct (N.eqb o' o) eqn:Q; [|reflexivity].
  apply N.eqb_eq in Q. subst. exfalso. apply NE. reflexivity.
Qed.

Lemma reaches_own_stream o m s :
  target m s = Some o -> reaches o m s = passes m s.
Proof. unfold reaches. intros ->. rewrite N.eqb_refl. reflexivity. Qed.

(** X7. Output goes to the two streams the object points to and nowhere
    else: when the attached stream is not the stream of [std_out], each of
    the two receives the rest of a line (values, then [std::endl]) exactly
    if its own guard passes, and every other stream receives nothing. *)
Theorem X7_streams_receive_their_own_output_only
  (plh : action unit) {T} `{Insertable T} (ts : list T) (s : LogStream) :
  was_endl s = false ->
  (file s <> Some (std_out s) ->
   received (std_out s) (emitted (line_with plh ts s))
   = if (size s <=? std_depth s)%N then texts ts ++ [Endl] else [])
  /\ (forall f,
        file s = Some f ->
        f <> std_out s ->
        received f (emitted (line_with plh ts s))
        = if (size s <=? file_depth s)%N then texts ts ++ [Endl] else [])
  /\ (forall o,
        o <> std_out s ->
        file s <> Some o ->
        received o (emitted (line_with plh ts s)) = []).
Proof.
  intros E. rewrite (@line_with_midline plh _ _ ts s E).
  unfold emitted; cbn [snd]. repeat split.
  - intros NE. rewrite received_flat_map_both.
    rewrite (@reaches_own_stream (std_out s) via_std_out s eq_refl).
    rewrite (@reaches_other_stream (std_out s) via_file s NE).
    cbn [passes]. destruct (size s <=? std_depth s)%N; reflexivity.
  - intros f F NE. rewrite received_flat_map_both.
    rewrite (@reaches_own_stream f via_file s F).
    rewrite (@reaches_other_stream f via_std_out s).
    + cbn [passes]. rewrite F.
      destruct (size s <=? file_depth s)%N; reflexivity.
    + cbn [target]. intros Q. injection Q as Q. apply NE. symmetry. exact Q.
  - intros o NE NF. rewrite received_flat_map_both.
    rewrite (@reaches_other_stream o via_std_out s).
    + rewrite (@reaches_other_stream o via_file s NF). reflexivity.
    + cbn [target]. intros Q. injection Q as Q. apply NE. symmetry. exact Q.
Qed.

Lemma X7_witness :
  received cerr
    (emitted (line_with print_line_head ["x"]%string
                (set_was_endl false two_deep)))
  = []
  /\ received 7%N
       (emitted (line_with print_line_head ["x"]%string
                   (set_was_endl false two_deep)))
     = [Text "x"; Endl]
  /\ received 9%N
       (emitted (line_with print_line_head ["x"]%string
                   (set_was_endl false two_deep)))
     = [].
Proof.
  destruct (@X7_streams_receive_their_own_output_only
              print_line_head string _ ["x"]%string
              (set_was_endl false two_deep) eq_refl) as (A & B & C).
  split; [|split].
  - apply A. discriminate.
  - apply (B 7%N); [reflexivity | discriminate].
  - apply (C 9%N); discriminate.
Defined.

(** X8. When the attached stream is the stream of [std_out] itself, that
    stream receives, after what [print_line_head] inserted at the start of
    the line, every value and every [std::endl] two times in a row when
    both guards pass, once when only one guard passes, and not at all when
    none passes. *)
Theorem X8_attached_console_doubles_the_output
  (plh : action unit) {T} `{Insertable T} (ts : list T) (s : LogStream) :
  only_prints plh ->
  file s = Some (std_out s) ->
  received (std_out s) (emitted (line_with plh ts s))
  = received (std_out s) (head_emitted plh ts s)
    ++ match (size s <=? std_depth s)%N, (size s <=? file_depth s)%N with
       | true, true => twice (texts ts ++ [Endl])
       | true, false | false, true => texts ts ++ [Endl]
       | false, false => []
       end.
Proof.
  intros O F. rewrite (@line_with_emitted plh _ _ ts s O).
  rewrite received_app, received_flat_map_both.
  rewrite (@reaches_own_stream (std_out s) via_std_out s eq_refl).
  rewrite (@reaches_own_stream (std_out s) via_file s F).
  cbn [passes]. rewrite F. reflexivity.
Qed.

Lemma X8_witness :
  received cerr
    (emitted (line_with print_line_head ["x"]%string console_attached))
  = [Text "solve:iter:"; Text "solve:iter:";
     Text "x"; Text "x"; Endl; Endl].
Proof.
  apply (@X8_attached_console_doubles_the_output
           print_line_head string _ ["x"]%string console_attached
           print_line_head_only_prints eq_refl).
Defined.
